(** * go-kit-examples: the addsvc process lifecycle, endpoint glue and hello service

    A shallow embedding of the Go sources:
    - [Service]   : pkg/service, [basicHelloService.SayHi];
    - [Endpoint]  : new_addsvc/pkg/endpoint/2.implement.go,
                    [AddSvcEndpoints.Sum] and [AddSvcEndpoints.Concat];
    - [Lifecycle] : new_addsvc main package: [stopAllTaskFunc], the task
                    bodies and cleanup hooks registered by [main];
    - [Supervisor]: the go-util/_go [SafeAsyncTask] that [main] drives.

    Go values are modelled as follows.  An [error] is [option string]
    ([None] is nil).  A call that may panic returns an [Outcome].  Side
    effects of the main package (log lines, server calls, the closing of
    the shared context's Done channel) are appended to a trace carried by
    a [World]. *)

From stdpp Require Import base option list strings pretty.
From Stdlib Require Import ZArith Lia.

Local Open Scope Z_scope.

(** ** Go runtime values *)

Module Go.

(** A Go [error] interface value: [None] is nil, [Some msg] a non-nil
    error whose [Error()] text is [msg]. *)
Abbreviation error := (option string).

(** What a panic carries. *)
Inductive PanicValue : Type :=
| PanicErr (e : string)                       (* panic(err) *)
| PanicTypeAssert (want got : string).        (* failed x.(T) *)

(** The result of running a Go function body: it returns or it panics. *)
Inductive Outcome (A : Type) : Type :=
| Returned (a : A)
| Panicked (p : PanicValue).
Arguments Returned {A} a.
Arguments Panicked {A} p.

(** [time.Duration] counts nanoseconds in an int64. *)
Definition Duration : Type := Z.
Definition time_Second : Duration := 1000000000.

End Go.

Import Go.

(** ** pkg/service: the hello service *)

Module Service.
Section WithContext.

(** The service never inspects its context. *)
Variable Context : Type.

(** [type basicHelloService struct{}] *)
Inductive basicHelloService : Type := BasicHelloService.

(** The named results [reply string] and [err error] start at their zero
    values; the body is the bare [return reply, err]. *)
Definition SayHi (b : basicHelloService) (ctx : Context)
    (name say : string) : string * error :=
  let reply : string := "" in
  let err : error := None in
  (reply, err).

(** The [HelloService] interface: a value with a [SayHi] method. *)
Record HelloService : Type :=
  { hs_SayHi : Context -> string -> string -> string * error }.

(** [NewBasicHelloService] returns [&basicHelloService{}] as a
    [HelloService]. *)
Definition NewBasicHelloService : HelloService :=
  {| hs_SayHi := SayHi BasicHelloService |}.

(** A [Middleware] is applied as [m(svc)] and yields a [HelloService]. *)
Definition Middleware : Type := HelloService -> HelloService.

(** [New]: the loop [for _, m := range middleware { svc = m(svc) }] over the
    basic service. *)
Definition New (middleware : list Middleware) : HelloService :=
  foldl (fun svc m => m svc) NewBasicHelloService middleware.

(** A middleware that leaves what [SayHi] returns as it is. *)
Definition transparent (m : Middleware) : Prop :=
  forall svc ctx name say,
    hs_SayHi (m svc) ctx name say = hs_SayHi svc ctx name say.

End WithContext.
End Service.

(** ** new_addsvc/pkg/endpoint: the client-side endpoint set *)

Module Endpoint.
Section WithContext.

Variable Context : Type.

(** Request and response structs.  Only the fields the two methods touch
    are spelled out; [Meta] stands for whatever else a response carries
    (the source comment mentions a return code). *)
Variable Meta : Type.

Record SumRequest : Type := { SumRequest_A : Z; SumRequest_B : Z }.
Record ConcatRequest : Type :=
  { ConcatRequest_A : string; ConcatRequest_B : string }.
Record SumResponse : Type := { SumResponse_V : Z; SumResponse_meta : Meta }.
Record ConcatResponse : Type :=
  { ConcatResponse_V : string; ConcatResponse_meta : Meta }.

(** An [interface{}] value, by dynamic type. *)
Inductive Any : Type :=
| AnyNil
| AnySumRequest (r : SumRequest)
| AnyConcatRequest (r : ConcatRequest)
| AnySumResponse (r : SumResponse)
| AnyConcatResponse (r : ConcatResponse)
| AnyOther (dyntype : string).

Definition dyntype_of (x : Any) : string :=
  match x with
  | AnyNil => "nil"
  | AnySumRequest _ => "endpoint.SumRequest"
  | AnyConcatRequest _ => "endpoint.ConcatRequest"
  | AnySumResponse _ => "endpoint.SumResponse"
  | AnyConcatResponse _ => "endpoint.ConcatResponse"
  | AnyOther t => t
  end.

(** go-kit's [endpoint.Endpoint]. *)
Definition GoKitEndpoint : Type := Context -> Any -> Any * error.

Record AddSvcEndpoints : Type :=
  { SumEndpoint : GoKitEndpoint; ConcatEndpoint : GoKitEndpoint }.

(** [resp.(SumResponse)]: the single-result form of a type assertion,
    which panics unless the dynamic type is exactly [SumResponse]. *)
Definition assertSumResponse (resp : Any) : Outcome SumResponse :=
  match resp with
  | AnySumResponse r => Returned r
  | other => Panicked (PanicTypeAssert "endpoint.SumResponse" (dyntype_of other))
  end.

Definition assertConcatResponse (resp : Any) : Outcome ConcatResponse :=
  match resp with
  | AnyConcatResponse r => Returned r
  | other =>
      Panicked (PanicTypeAssert "endpoint.ConcatResponse" (dyntype_of other))
  end.

Definition Sum (e : AddSvcEndpoints) (ctx : Context) (a b : Z)
    : Outcome (Z * error) :=
  let '(resp, err) :=
    SumEndpoint e ctx (AnySumRequest {| SumRequest_A := a; SumRequest_B := b |}) in
  match assertSumResponse resp with
  | Returned response => Returned (SumResponse_V response, err)
  | Panicked p => Panicked p
  end.

Definition Concat (e : AddSvcEndpoints) (ctx : Context) (a b : string)
    : Outcome (string * error) :=
  let '(resp, err) :=
    ConcatEndpoint e ctx
      (AnyConcatRequest {| ConcatRequest_A := a; ConcatRequest_B := b |}) in
  match assertConcatResponse resp with
  | Returned response => Returned (ConcatResponse_V response, err)
  | Panicked p => Panicked p
  end.

End WithContext.

Arguments AnyNil {Meta}.
Arguments AnyOther {Meta} dyntype.
Arguments AnySumResponse {Meta} r.
Arguments AnyConcatResponse {Meta} r.
Arguments AnySumRequest {Meta} r.
Arguments AnyConcatRequest {Meta} r.
Arguments assertSumResponse {Meta} resp.
Arguments assertConcatResponse {Meta} resp.
Arguments Sum {Context Meta} e ctx a b.
Arguments Concat {Context Meta} e ctx a b.
Arguments SumEndpoint {Context Meta} a.
Arguments ConcatEndpoint {Context Meta} a.
Arguments SumResponse_V {Meta} s.
Arguments ConcatResponse_V {Meta} c.

End Endpoint.

(** ** The process world: shared context and effect trace *)

Module Runtime.

(** A value handed to [logger.Log]. *)
Inductive LogVal : Type :=
| LStr (s : string)
| LErr (e : error)
| LNil.

(** The externally visible actions of the main package. *)
Inductive Effect : Type :=
| ELog (keyvals : list LogVal)            (* logger.Log(keyvals...) *)
| ECtxDone                                (* shareCtx.Done() gets closed *)
| ENetListen (network addr : string)      (* net.Listen(network, addr) *)
| ERegisterAddServer                      (* addsvcpb.RegisterAddServer *)
| ERegisterHealthServer                   (* grpc_health_v1.RegisterHealthServer *)
| EHttpServe                              (* httpSrv.Serve(lis) *)
| EGrpcServe                              (* grpcSrv.Serve(lis) *)
| EHttpShutdown (timeout : Duration)      (* httpSrv.Shutdown(ctx with timeout) *)
| EGrpcGracefulStop                       (* grpcSrv.GracefulStop() *)
| EConsulDeregister.                      (* gokit_foundation.ConsulDeregister() *)

Definition is_ctx_done (e : Effect) : bool :=
  match e with ECtxDone => true | _ => false end.

Definition is_http_shutdown (e : Effect) : bool :=
  match e with EHttpShutdown _ => true | _ => false end.

Definition is_grpc_stop (e : Effect) : bool :=
  match e with EGrpcGracefulStop => true | _ => false end.

Definition is_deregister (e : Effect) : bool :=
  match e with EConsulDeregister => true | _ => false end.

Definition is_log (e : Effect) : bool :=
  match e with ELog _ => true | _ => false end.

Definition is_net_listen (e : Effect) : bool :=
  match e with ENetListen _ _ => true | _ => false end.

(** A call that stops a transport server. *)
Definition is_server_stop (e : Effect) : bool :=
  is_http_shutdown e || is_grpc_stop e.

(** The deadline a server-stopping call is given, if it is given one:
    [Shutdown] takes a context, [GracefulStop] takes no argument. *)
Definition deadline_of (e : Effect) : option Duration :=
  match e with
  | EHttpShutdown t => Some t
  | _ => None
  end.

Definition count (p : Effect -> bool) (tr : list Effect) : nat :=
  length (List.filter p tr).

(** The part of a trace that precedes the first effect satisfying [p]. *)
Fixpoint before_first (p : Effect -> bool) (tr : list Effect) : list Effect :=
  match tr with
  | [] => []
  | e :: tr' => if p e then [] else e :: before_first p tr'
  end.

(** [shareCtx, cancelCtx = context.WithCancel(context.Background())]:
    the package-level context is either live or done. *)
Record World : Type := { ctx_done : bool; trace : list Effect }.

Definition initial : World := {| ctx_done := false; trace := [] |}.

Definition emit (e : Effect) (w : World) : World :=
  {| ctx_done := ctx_done w; trace := trace w ++ [e] |}.

(** The [context.CancelFunc]: the first call closes Done, later calls do
    nothing. *)
Definition cancelCtx (w : World) : World :=
  if ctx_done w then w
  else {| ctx_done := true; trace := trace w ++ [ECtxDone] |}.

(** Go code running in the world: it returns or panics, and leaves the
    world changed either way. *)
Definition M (A : Type) : Type := World -> Outcome A * World.

Definition ret {A} (a : A) : M A := fun w => (Returned a, w).

Definition bind {A B} (m : M A) (f : A -> M B) : M B :=
  fun w =>
    match m w with
    | (Returned a, w') => f a w'
    | (Panicked p, w') => (Panicked p, w')
    end.

Definition act (e : Effect) : M unit := fun w => (Returned tt, emit e w).

Definition panic {A} (p : PanicValue) : M A := fun w => (Panicked p, w).

End Runtime.

Import Runtime.

Notation "'let*' x ':=' m 'in' k" := (Runtime.bind m (fun x => k))
  (at level 10, x name, m at level 200, k at level 200).
Notation "'step' m 'in' k" := (Runtime.bind m (fun _ => k))
  (at level 10, m at level 200, k at level 200).

(** ** go-util/_go: the task supervisor *)

Module Supervisor.
Section WithTask.

(** What a registered run function is; the supervisor never looks
    inside. *)
Variable Task : Type.

(** [func(err error)] *)
Definition CleanupHook : Type := error -> World -> World.

(** Modelled from the spec: the Registration of section 3, one
    (Task, CleanupHook) pair; the hook may be absent or nil. *)
Record Registration : Type :=
  { reg_task : Task; reg_clean : option CleanupHook }.

(** Modelled from the spec: the TaskSupervisor of section 2, which owns
    the stop callback and the registrations in registration order, and
    knows whether Run has begun. *)
Record SafeAsyncTask : Type :=
  { stopFn : error -> World -> World;
    regs : list Registration;
    started : bool }.

(** Modelled from the spec: construction, with nothing registered. *)
Definition NewSafeAsyncTask (stop : error -> World -> World)
    : SafeAsyncTask :=
  {| stopFn := stop; regs := []; started := false |}.

(** The handle [AddDo] returns names the registration it made. *)
Definition Handle : Type := nat.

(** Modelled from the spec: AddDo of section 4.1 appends a registration
    without cleanup and returns its handle; after Run it fails fast. *)
Definition AddDo (ak : SafeAsyncTask) (t : Task)
    : option (SafeAsyncTask * Handle) :=
  if started ak then None
  else Some ({| stopFn := stopFn ak;
                regs := regs ak ++ [ {| reg_task := t; reg_clean := None |} ];
                started := false |},
             length (regs ak)).

(** Modelled from the spec: AddClean of section 4.1 attaches the hook to
    the registration of the handle (a nil hook is no hook); after Run it
    fails fast. *)
Definition AddClean (akh : SafeAsyncTask * Handle)
    (hook : option CleanupHook) : option SafeAsyncTask :=
  let '(ak, h) := akh in
  if started ak then None
  else match regs ak !! h with
       | None => None
       | Some r =>
           Some {| stopFn := stopFn ak;
                   regs := <[h := {| reg_task := reg_task r;
                                      reg_clean := hook |}]> (regs ak);
                   started := false |}
       end.

(** Modelled from the spec: the ExitRecord of section 3 per task ([None]
    while the task runs, [Some err] once it returned [err]), next to the
    world and the arguments the stop callback was invoked with. *)
Record SupState : Type :=
  { sup_world : World;
    sup_exits : list (option error);
    sup_stops : list error }.

Definition none_exited (xs : list (option error)) : bool :=
  forallb (fun x => match x with None => true | Some _ => false end) xs.

Definition all_exited (xs : list (option error)) : bool :=
  forallb (fun x => match x with None => false | Some _ => true end) xs.

(** Modelled from the spec: steps 2 to 4 of Run in section 4.1.  Task [k]
    returns [err].  If it is the first task to return, the stop callback
    is invoked with [err] and then the shared context is cancelled; in
    every case the exit is recorded.  A task that is not registered or
    has already returned cannot return. *)
Definition task_returns (stop : error -> World -> World)
    (ev : nat * error) (st : SupState) : option SupState :=
  let '(k, err) := ev in
  match sup_exits st !! k with
  | Some None =>
      let first := none_exited (sup_exits st) in
      Some {| sup_world :=
                if first then cancelCtx (stop err (sup_world st))
                else sup_world st;
              sup_exits := <[k := Some err]> (sup_exits st);
              sup_stops :=
                if first then sup_stops st ++ [err] else sup_stops st |}
  | _ => None
  end.

(** The tasks return one after the other, in the order of [sched]. *)
Fixpoint drain (stop : error -> World -> World)
    (sched : list (nat * error)) (st : SupState) : option SupState :=
  match sched with
  | [] => Some st
  | ev :: rest =>
      match task_returns stop ev st with
      | Some st' => drain stop rest st'
      | None => None
      end
  end.

(** Modelled from the spec: step 6 of Run in section 4.1, the hooks that
    are due, in reverse registration order, each with the exit error of
    its own task. *)
Definition due_cleanups (rs : list Registration)
    (exits : list (option error)) : list (nat * CleanupHook * error) :=
  reverse
    (omap (fun '(i, (r, x)) =>
             match reg_clean r, x with
             | Some h, Some e => Some (i, h, e)
             | _, _ => None
             end)
          (zip (seq 0 (length rs)) (zip rs exits))).

(** The hooks run one at a time. *)
Definition run_cleanups (calls : list (nat * CleanupHook * error))
    (w : World) : World :=
  foldl (fun w '(_, h, e) => h e w) w calls.

(** What a finished Run leaves behind: the world, the arguments of the
    stop callback's invocations in order, and the hook invocations in
    order, each as (registration index, error passed). *)
Record RunResult : Type :=
  { final : World;
    stop_calls : list error;
    clean_calls : list (nat * error) }.

(** Modelled from the spec: Run of section 4.1.  With nothing registered
    it returns at once.  Otherwise every task is started, the tasks
    return in the order [sched] gives (with the errors it gives), and
    once all of them have returned the hooks run.  [None]: Run does not
    return, because some task never does, or [sched] is no possible
    order of returns. *)
Definition Run (ak : SafeAsyncTask) (sched : list (nat * error))
    (w : World) : option RunResult :=
  match regs ak with
  | [] => Some {| final := w; stop_calls := []; clean_calls := [] |}
  | _ :: _ =>
      match drain (stopFn ak) sched
              {| sup_world := w;
                 sup_exits := replicate (length (regs ak)) None;
                 sup_stops := [] |} with
      | None => None
      | Some st =>
          if all_exited (sup_exits st) then
            let due := due_cleanups (regs ak) (sup_exits st) in
            Some {| final := run_cleanups due (sup_world st);
                    stop_calls := sup_stops st;
                    clean_calls := (fun '(i, _, e) => (i, e)) <$> due |}
          else None
      end
  end.

(** Modelled from the spec: a Run in progress (section 4.1, steps 1 to
    5): the supervisor's state once the tasks listed in [sched] have
    returned, in that order; the other tasks are still running.  [None]:
    [sched] is no possible order of returns. *)
Definition run_state (ak : SafeAsyncTask) (sched : list (nat * error))
    (w : World) : option SupState :=
  drain (stopFn ak) sched
    {| sup_world := w;
       sup_exits := replicate (length (regs ak)) None;
       sup_stops := [] |}.

(** The indices of the registrations that carry a hook, in registration
    order. *)
Definition hooked (rs : list Registration) : list nat :=
  omap (fun '(i, r) =>
          match reg_clean r with Some _ => Some i | None => None end)
       (zip (seq 0 (length rs)) rs).

(** Invoking the hook of registration [i], if it has one, with [e]. *)
Definition apply_hook (rs : list Registration) (w : World)
    (ie : nat * error) : World :=
  match rs !! ie.1 with
  | Some r =>
      match reg_clean r with
      | Some h => h ie.2 w
      | None => w
      end
  | None => w
  end.

End WithTask.

Arguments reg_task {Task} r.
Arguments reg_clean {Task} r.
Arguments stopFn {Task} s.
Arguments regs {Task} s.
Arguments started {Task} s.
Arguments NewSafeAsyncTask {Task} stop.
Arguments AddDo {Task} ak t.
Arguments AddClean {Task} akh hook.
Arguments Run {Task} ak sched w.
Arguments run_state {Task} ak sched w.
Arguments due_cleanups {Task} rs exits.
Arguments hooked {Task} rs.
Arguments apply_hook {Task} rs w ie.

End Supervisor.

(** ** new_addsvc: the main package *)

Module Lifecycle.

Import Supervisor.

(** *** The inline signal task of [main] *)

(** [syscall.SIGINT] and [syscall.SIGTERM] on linux. *)
Definition SIGINT : Z := 2.
Definition SIGTERM : Z := 15.

(** [syscall.Signal.String], as [%v] prints a signal; of the named
    signals only the two that [main] subscribes to are listed. *)
Definition signal_String (s : Z) : string :=
  if s =? SIGINT then "interrupt"
  else if s =? SIGTERM then "terminated"
  else "signal " +:+ pretty s.

(** What the goroutine of a task can observe while it waits. *)
Inductive Event : Type :=
| SignalRaised (s : Z)     (* the process receives signal [s] *)
| CtxDone.                 (* the task's [ctx.Done()] is closed *)

Inductive TaskStatus : Type :=
| Blocked
| Exited (err : error).

(** [signal.Notify(sc, sigs...)] relays only the listed signals to [sc];
    the [select] then takes whichever of [<-sc] and [<-ctx.Done()]
    comes first.  The events are those that occur while the goroutine
    waits in the [select]. *)
Fixpoint select_signal_or_done (notified : list Z) (evs : list Event)
    : TaskStatus :=
  match evs with
  | [] => Blocked
  | SignalRaised s :: rest =>
      if existsb (Z.eqb s) notified
      then Exited (Some ("recv-signal:" +:+ signal_String s))
      else select_signal_or_done notified rest
  | CtxDone :: _ => Exited None
  end.

(** The events that end the wait of [main]'s signal task. *)
Definition wakes (ev : Event) : bool :=
  match ev with
  | SignalRaised s => (s =? SIGINT) || (s =? SIGTERM)
  | CtxDone => true
  end.

Definition sleeps_through (evs : list Event) : bool :=
  forallb (fun ev => negb (wakes ev)) evs.

(** The closure passed to the first [ak.AddDo] of [main]. *)
Definition signalTask (evs : list Event) : TaskStatus :=
  select_signal_or_done [SIGINT; SIGTERM] evs.

(** *** The listener tasks *)

Record Listener : Type := { lis_network : string; lis_addr : string }.

(** The outside world the listener tasks call into: what [net.Listen]
    returns for an address, the terminal error of each [Serve], and what
    [Shutdown] returns under a given timeout. *)
Record Env : Type :=
  { net_Listen : string -> string -> option Listener * error;
    httpSrv_Serve : Listener -> error;
    grpcSrv_Serve : Listener -> error;
    httpSrv_Shutdown : Duration -> error }.

(** Modelled from the spec: [_util.PanicIfErr] of go-util, the "panic if
    error" helper of section 9: it panics with a non-nil error and
    returns otherwise.  Both call sites pass nil as second argument. *)
Definition PanicIfErr (err : error) : M unit :=
  match err with
  | Some e => panic (PanicErr e)
  | None => ret tt
  end.

(** A method call on a nil listener is a nil dereference. *)
Definition serve_on (eff : Effect) (serve : Listener -> error)
    (lis : option Listener) : M error :=
  match lis with
  | Some l => step act eff in ret (serve l)
  | None => panic (PanicErr "invalid memory address or nil pointer dereference")
  end.

Definition httpSrvTask (env : Env) (httpSrvAddr : string) : M error :=
  step act (ELog [LStr "NewSafeAsyncTask"; LStr "httpSrvTask";
                  LStr "httpSrvAddr"; LStr httpSrvAddr]) in
  step act (ENetListen "tcp" httpSrvAddr) in
  let '(httpLis, err) := net_Listen env "tcp" httpSrvAddr in
  step PanicIfErr err in
  let* err := serve_on EHttpServe (httpSrv_Serve env) httpLis in
  ret err.

(** [NewAddSrv] and [NewHealthCheckSrv] only build the values that the two
    register calls are given. *)
Definition grpcSrvTask (env : Env) (grpcSrvAddr : string) : M error :=
  step act (ELog [LStr "NewSafeAsyncTask"; LStr "grpcSrvTask";
                  LStr "grpcSrvAddr"; LStr grpcSrvAddr]) in
  step act (ENetListen "tcp" grpcSrvAddr) in
  let '(grpcLis, err) := net_Listen env "tcp" grpcSrvAddr in
  step PanicIfErr err in
  step act ERegisterAddServer in
  step act ERegisterHealthServer in
  let* err := serve_on EGrpcServe (grpcSrv_Serve env) grpcLis in
  ret err.

(** *** The cleanup hooks *)

(** The hook of [addTaskHttpSrv]. *)
Definition httpSrvClean (env : Env) : CleanupHook :=
  fun err w =>
    match err with
    | None =>
        let timeout := time_Second * 2 in
        let w := emit (EHttpShutdown timeout) w in
        let err := httpSrv_Shutdown env timeout in
        emit (ELog [LStr "httpSrvTask"; LStr "exited"; LStr "clean"; LErr err]) w
    | Some _ => w
    end.

(** The hook of [addTaskGRPCSrv]. *)
Definition grpcSrvClean : CleanupHook :=
  fun err w =>
    match err with
    | None =>
        let w := emit EGrpcGracefulStop w in
        emit (ELog [LStr "grpcSrvTask"; LStr "exited"; LStr "clean"; LNil]) w
    | Some _ => w
    end.

(** The hook of [addTaskSvcRegister]. *)
Definition svcRegisterClean : CleanupHook :=
  fun err w =>
    match err with
    | None =>
        let w := emit EConsulDeregister w in
        emit (ELog [LStr "SvcRegisterTask"; LStr "exited"; LStr "clean"; LNil]) w
    | Some _ => w
    end.

(** *** [main] *)

Definition stopAllTaskFunc (err : error) (w : World) : World :=
  let w :=
    match err with
    | Some _ => emit (ELog [LStr "func"; LStr "stopAllTaskFunc";
                            LStr "err"; LErr err]) w
    | None => w
    end in
  cancelCtx w.

(** The run functions [main] hands to [AddDo]. *)
Inductive Task : Type :=
| SignalTask                        (* the closure of lines 132-144 *)
| ListenSignalTask                  (* _util.ListenSignalTask(shareCtx, logger, onClose) *)
| HttpSrvTask (addr : string)
| GrpcSrvTask (addr : string)
| SvcRegisterTask (host : string) (port : Z).

Inductive Role : Type :=
| SignalListener
| HttpServer
| GrpcServer
| RegistryRegistration.

Definition role (t : Task) : Role :=
  match t with
  | SignalTask | ListenSignalTask => SignalListener
  | HttpSrvTask _ => HttpServer
  | GrpcSrvTask _ => GrpcServer
  | SvcRegisterTask _ _ => RegistryRegistration
  end.

Definition addTaskListenSignal (ak : SafeAsyncTask Task)
    : option (SafeAsyncTask Task) :=
  h ← AddDo ak ListenSignalTask; AddClean h None.

Definition addTaskSvcRegister (ak : SafeAsyncTask Task) (srvHost : string)
    (grpcPort : Z) : option (SafeAsyncTask Task) :=
  h ← AddDo ak (SvcRegisterTask srvHost grpcPort);
  AddClean h (Some svcRegisterClean).

Definition addTaskHttpSrv (env : Env) (ak : SafeAsyncTask Task)
    (httpSrvAddr : string) : option (SafeAsyncTask Task) :=
  h ← AddDo ak (HttpSrvTask httpSrvAddr);
  AddClean h (Some (httpSrvClean env)).

Definition addTaskGRPCSrv (ak : SafeAsyncTask Task) (grpcSrvAddr : string)
    : option (SafeAsyncTask Task) :=
  h ← AddDo ak (GrpcSrvTask grpcSrvAddr);
  AddClean h (Some grpcSrvClean).

Definition srvHost : string := "127.0.0.1111".

(** [fmt.Sprintf("%s:%d", host, port)] *)
Definition host_port (host : string) (port : Z) : string :=
  host +:+ ":" +:+ pretty port.

(** The two addresses are formatted before [flag.Parse()] runs, hence
    from the flags' default values. *)
Definition grpcSrvAddr : string := host_port srvHost 8080.
Definition httpSrvAddr : string := host_port srvHost 8081.

(** [main] up to, not including, [ak.Run()]: the supervisor as Run finds
    it.  [grpcPort] is the value of the flag after parsing. *)
Definition main_setup (env : Env) (grpcPort : Z)
    : option (SafeAsyncTask Task) :=
  let ak := NewSafeAsyncTask stopAllTaskFunc in
  h ← AddDo ak SignalTask;
  ak ← addTaskListenSignal h.1;
  ak ← addTaskHttpSrv env ak httpSrvAddr;
  ak ← addTaskGRPCSrv ak grpcSrvAddr;
  ak ← addTaskSvcRegister ak srvHost grpcPort;
  Some ak.

(** [main]: registration, the "started" log line, then [ak.Run()], whose
    return ends the process.  [sched] is the order in which the tasks
    return and the error each returns. *)
Definition main (env : Env) (grpcPort : Z) (sched : list (nat * error))
    (w : World) : option (RunResult) :=
  ak ← main_setup env grpcPort;
  Run ak sched (emit (ELog [LStr "main"; LStr "started"]) w).

(** [main] while [ak.Run()] is in progress: the supervisor's state once the
    tasks listed in [sched] have returned. *)
Definition main_state (env : Env) (grpcPort : Z) (sched : list (nat * error))
    (w : World) : option SupState :=
  ak ← main_setup env grpcPort;
  run_state ak sched (emit (ELog [LStr "main"; LStr "started"]) w).

(** The error a log line of [stopAllTaskFunc] reports, for the lines that
    are such. *)
Definition logs_stop (e : Effect) : option error :=
  match e with
  | ELog [LStr a; LStr b; LStr c; LErr err] =>
      if String.eqb a "func" && String.eqb b "stopAllTaskFunc"
         && String.eqb c "err"
      then Some err else None
  | _ => None
  end.

(** In [roles], every registration of role [a] comes before every
    registration of role [b]. *)
Definition precedes (a b : Role) (roles : list Role) : Prop :=
  forall i j, roles !! i = Some a -> roles !! j = Some b -> (i < j)%nat.

(** The registration indices of [main]'s tasks. *)
Definition ix_signal : nat := 0%nat.
Definition ix_listen_signal : nat := 1%nat.
Definition ix_http : nat := 2%nat.
Definition ix_grpc : nat := 3%nat.
Definition ix_register : nat := 4%nat.

(** An outside world in which every bind fails. *)
Definition env_bind_fails : Env :=
  {| net_Listen := fun _ addr => (None, Some ("listen tcp: lookup " +:+ addr));
     httpSrv_Serve := fun _ => Some "http: Server closed";
     grpcSrv_Serve := fun _ => None;
     httpSrv_Shutdown := fun _ => None |}.

(** An outside world in which every bind succeeds. *)
Definition env_ok : Env :=
  {| net_Listen := fun n addr =>
       (Some {| lis_network := n; lis_addr := addr |}, None);
     httpSrv_Serve := fun _ => Some "http: Server closed";
     grpcSrv_Serve := fun _ => None;
     httpSrv_Shutdown := fun _ => None |}.

End Lifecycle.

(** ** stringsvc: the endpoint logging middleware *)

Module Stringsvc.
Section WithTypes.

(** The context, and the [interface{}] values an endpoint takes and
    gives; the middleware looks into none of them. *)
Variables (Context Request Response : Type).

(** go-kit's [endpoint.Endpoint], run in the process world. *)
Definition Endpoint : Type :=
  Context -> Request -> M (Response * error).

(** go-kit's [endpoint.Middleware]. *)
Definition Middleware : Type := Endpoint -> Endpoint.

Definition calling_endpoint : Effect :=
  ELog [LStr "msg"; LStr "calling endpoint"].

Definition called_endpoint : Effect :=
  ELog [LStr "msg"; LStr "called endpoint"].

(** [loggingMiddleware(logger)]: the returned endpoint logs, calls [next],
    and its deferred [logger.Log] runs when [next] has returned or
    panicked. *)
Definition loggingMiddleware : Middleware :=
  fun next ctx request w =>
    let w := emit calling_endpoint w in
    let '(o, w) := next ctx request w in
    (o, emit called_endpoint w).

End WithTypes.

Arguments loggingMiddleware {Context Request Response} next ctx request w.

End Stringsvc.

(** ** A three-task supervisor, for the ordering properties *)

Module Scenario.

Import Supervisor.

(** A hook that logs its task's name and the error it is given. *)
Definition note (name : string) : CleanupHook :=
  fun err w => emit (ELog [LStr name; LErr err]) w.

Definition quiet_stop (err : error) (w : World) : World := cancelCtx w.

(** Tasks A, B and C, registered in this order, each with a hook. *)
Definition abc : SafeAsyncTask string :=
  {| stopFn := quiet_stop;
     regs := [ {| reg_task := "A"%string; reg_clean := Some (note "A") |};
               {| reg_task := "B"%string; reg_clean := Some (note "B") |};
               {| reg_task := "C"%string; reg_clean := Some (note "C") |} ];
     started := false |}.

(** B fails first, then C stops cleanly, then A reports the cancellation. *)
Definition abc_sched : list (nat * error) :=
  [(1%nat, Some "boom"%string); (2%nat, None);
   (0%nat, Some "context canceled"%string)].

(** A run of [main] in which consul registration fails first. *)
Definition register_fails_sched : list (nat * error) :=
  [(Lifecycle.ix_register, Some "consul: connection refused"%string);
   (Lifecycle.ix_signal, None);
   (Lifecycle.ix_listen_signal, None);
   (Lifecycle.ix_grpc, None);
   (Lifecycle.ix_http, Some "http: Server closed"%string)].

(** A run of [main] in progress: SIGINT has ended the signal task, the
    other four tasks have not returned yet. *)
Definition sigint_only_sched : list (nat * error) :=
  [(Lifecycle.ix_signal, Some "recv-signal:interrupt"%string)].

(** A run of [main] ended by SIGINT, in which registration stops cleanly. *)
Definition sigint_sched : list (nat * error) :=
  [(Lifecycle.ix_signal, Some "recv-signal:interrupt"%string);
   (Lifecycle.ix_register, None);
   (Lifecycle.ix_listen_signal, None);
   (Lifecycle.ix_grpc, None);
   (Lifecycle.ix_http, None)].

(** A middleware that only passes the call on. *)
Definition passing (Context : Type) : Service.Middleware Context :=
  fun svc => {| Service.hs_SayHi := Service.hs_SayHi Context svc |}.

(** An endpoint that panics. *)
Definition failing_endpoint : Stringsvc.Endpoint unit unit unit :=
  fun _ _ => panic (PanicErr "boom").

End Scenario.

Import Lifecycle Supervisor.

(** * Properties *)

(** ** The hello service *)

(** C10: for every context and every pair of strings, [SayHi] returns the
    empty string and a nil error. *)
Theorem SayHi_returns_empty_reply_and_nil :
  forall (Context : Type) (b : Service.basicHelloService) (ctx : Context)
         (name say : string),
    Service.SayHi Context b ctx name say = (""%string, None).
Proof. intros. unfold Service.SayHi. reflexivity. Qed.

(** ** The endpoint set *)

Section EndpointFacts.

Context {Ctx Meta : Type}.
Implicit Types (e : Endpoint.AddSvcEndpoints Ctx Meta) (ctx : Ctx).

Lemma assertSumResponse_returns (resp : Endpoint.Any Meta) r :
  Endpoint.assertSumResponse resp = Returned r <->
  resp = Endpoint.AnySumResponse r.
Proof.
  split.
  - destruct resp; simpl; intros H; inversion H; reflexivity.
  - intros ->. reflexivity.
Qed.

Lemma assertConcatResponse_returns (resp : Endpoint.Any Meta) r :
  Endpoint.assertConcatResponse resp = Returned r <->
  resp = Endpoint.AnyConcatResponse r.
Proof.
  split.
  - destruct resp; simpl; intros H; inversion H; reflexivity.
  - intros ->. reflexivity.
Qed.

Lemma Sum_returns e ctx a b v err :
  Endpoint.Sum e ctx a b = Returned (v, err) <->
  exists r,
    Endpoint.SumEndpoint e ctx
      (Endpoint.AnySumRequest
         {| Endpoint.SumRequest_A := a; Endpoint.SumRequest_B := b |})
    = (Endpoint.AnySumResponse r, err)
    /\ Endpoint.SumResponse_V r = v.
Proof.
  unfold Endpoint.Sum.
  destruct (Endpoint.SumEndpoint e ctx _) as [resp err'].
  split.
  - destruct (Endpoint.assertSumResponse resp) as [r|p] eqn:Hr;
      intros H; inversion H; subst.
    apply assertSumResponse_returns in Hr. subst. eauto.
  - intros (r & Heq & <-). inversion Heq; subst. reflexivity.
Qed.

Lemma Concat_returns e ctx a b v err :
  Endpoint.Concat e ctx a b = Returned (v, err) <->
  exists r,
    Endpoint.ConcatEndpoint e ctx
      (Endpoint.AnyConcatRequest
         {| Endpoint.ConcatRequest_A := a; Endpoint.ConcatRequest_B := b |})
    = (Endpoint.AnyConcatResponse r, err)
    /\ Endpoint.ConcatResponse_V r = v.
Proof.
  unfold Endpoint.Concat.
  destruct (Endpoint.ConcatEndpoint e ctx _) as [resp err'].
  split.
  - destruct (Endpoint.assertConcatResponse resp) as [r|p] eqn:Hr;
      intros H; inversion H; subst.
    apply assertConcatResponse_returns in Hr. subst. eauto.
  - intros (r & Heq & <-). inversion Heq; subst. reflexivity.
Qed.

Lemma Sum_nil_panics e ctx a b err :
  Endpoint.SumEndpoint e ctx
    (Endpoint.AnySumRequest
       {| Endpoint.SumRequest_A := a; Endpoint.SumRequest_B := b |})
  = (Endpoint.AnyNil, err) ->
  Endpoint.Sum e ctx a b
  = Panicked (PanicTypeAssert "endpoint.SumResponse" "nil").
Proof. unfold Endpoint.Sum. intros ->. reflexivity. Qed.

Lemma Concat_nil_panics e ctx a b err :
  Endpoint.ConcatEndpoint e ctx
    (Endpoint.AnyConcatRequest
       {| Endpoint.ConcatRequest_A := a; Endpoint.ConcatRequest_B := b |})
  = (Endpoint.AnyNil, err) ->
  Endpoint.Concat e ctx a b
  = Panicked (PanicTypeAssert "endpoint.ConcatResponse" "nil").
Proof. unfold Endpoint.Concat. intros ->. reflexivity. Qed.

End EndpointFacts.

(** C9: [Sum] and [Concat] convert the endpoint's generic result with an
    unchecked type assertion.  They return the response's [V] with the
    endpoint's error exactly when the result has the concrete response
    type; on any other result, a nil result next to a non-nil error
    included, they panic and return nothing. *)
Theorem endpoint_result_cast_is_unchecked :
  forall (Ctx Meta : Type) (e : Endpoint.AddSvcEndpoints Ctx Meta) (ctx : Ctx),
    (forall a b v err,
        Endpoint.Sum e ctx a b = Returned (v, err) <->
        exists r,
          Endpoint.SumEndpoint e ctx
            (Endpoint.AnySumRequest
               {| Endpoint.SumRequest_A := a; Endpoint.SumRequest_B := b |})
          = (Endpoint.AnySumResponse r, err)
          /\ Endpoint.SumResponse_V r = v)
    /\ (forall a b v err,
        Endpoint.Concat e ctx a b = Returned (v, err) <->
        exists r,
          Endpoint.ConcatEndpoint e ctx
            (Endpoint.AnyConcatRequest
               {| Endpoint.ConcatRequest_A := a;
                  Endpoint.ConcatRequest_B := b |})
          = (Endpoint.AnyConcatResponse r, err)
          /\ Endpoint.ConcatResponse_V r = v)
    /\ (forall a b msg,
        Endpoint.SumEndpoint e ctx
          (Endpoint.AnySumRequest
             {| Endpoint.SumRequest_A := a; Endpoint.SumRequest_B := b |})
        = (Endpoint.AnyNil, Some msg) ->
        Endpoint.Sum e ctx a b
        = Panicked (PanicTypeAssert "endpoint.SumResponse" "nil"))
    /\ (forall a b msg,
        Endpoint.ConcatEndpoint e ctx
          (Endpoint.AnyConcatRequest
             {| Endpoint.ConcatRequest_A := a;
                Endpoint.ConcatRequest_B := b |})
        = (Endpoint.AnyNil, Some msg) ->
        Endpoint.Concat e ctx a b
        = Panicked (PanicTypeAssert "endpoint.ConcatResponse" "nil")).
Proof.
  intros Ctx Meta e ctx. repeat split.
  - apply Sum_returns.
  - apply Sum_returns.
  - apply Concat_returns.
  - apply Concat_returns.
  - intros a b msg H. exact (Sum_nil_panics e ctx a b (Some msg) H).
  - intros a b msg H. exact (Concat_nil_panics e ctx a b (Some msg) H).
Qed.

(** ** The signal task *)

Lemma select_skips_sleep notified pre rest :
  (forall ev, ev ∈ pre ->
     match ev with
     | SignalRaised s => existsb (Z.eqb s) notified = false
     | CtxDone => False
     end) ->
  select_signal_or_done notified (pre ++ rest)
  = select_signal_or_done notified rest.
Proof.
  induction pre as [|ev pre IH]; intros Hpre; [reflexivity|].
  simpl. pose proof (Hpre ev ltac:(left)) as Hev.
  destruct ev as [s|]; [|contradiction].
  rewrite Hev. apply IH. intros ev' Hin. apply Hpre. by right.
Qed.

Lemma notified_by_main s :
  existsb (Z.eqb s) [SIGINT; SIGTERM] = wakes (SignalRaised s).
Proof. simpl. rewrite orb_false_r. reflexivity. Qed.

Lemma sleeps_through_select pre rest :
  sleeps_through pre = true ->
  signalTask (pre ++ rest) = signalTask rest.
Proof.
  intros Hpre. unfold signalTask. apply select_skips_sleep.
  intros ev Hin. unfold sleeps_through in Hpre.
  rewrite forallb_forall in Hpre.
  specialize (Hpre ev ltac:(by apply list_elem_of_In)).
  destruct ev as [s|]; simpl in Hpre.
  - rewrite notified_by_main. simpl. by destruct (_ || _).
  - discriminate.
Qed.

Lemma signalTask_blocked_sleeps evs :
  signalTask evs = Blocked -> sleeps_through evs = true.
Proof.
  unfold signalTask. induction evs as [|ev evs IH]; [reflexivity|].
  destruct ev as [s|]; [|discriminate].
  cbn [select_signal_or_done]. rewrite notified_by_main.
  destruct (wakes (SignalRaised s)) eqn:Hw; [discriminate|].
  intros H. cbn [sleeps_through forallb]. rewrite Hw. simpl. by apply IH.
Qed.

(** C3: [main]'s signal task stays blocked as long as neither SIGINT nor
    SIGTERM is raised and its context is not done, and only so long; if
    one of the two signals comes first it returns a non-nil error that
    names the signal; if the context is done first it returns nil. *)
Theorem signalTask_blocks_until_signal_or_cancel :
  forall pre post : list Event,
    sleeps_through pre = true ->
    signalTask pre = Blocked
    /\ (forall evs, signalTask evs = Blocked -> sleeps_through evs = true)
    /\ (forall s, s = SIGINT \/ s = SIGTERM ->
          signalTask (pre ++ SignalRaised s :: post)
          = Exited (Some ("recv-signal:" +:+ signal_String s)))
    /\ signalTask (pre ++ CtxDone :: post) = Exited None.
Proof.
  intros pre post Hpre. repeat split.
  - rewrite <- (app_nil_r pre). by rewrite sleeps_through_select.
  - apply signalTask_blocked_sleeps.
  - intros s Hs. rewrite sleeps_through_select by done.
    by destruct Hs as [-> | ->].
  - by rewrite sleeps_through_select.
Qed.

Lemma signalTask_blocks_until_signal_or_cancel_witness :
  signalTask [SignalRaised 1; SignalRaised 3] = Blocked
  /\ signalTask ([SignalRaised 1; SignalRaised 3] ++ SignalRaised SIGTERM :: [CtxDone])
     = Exited (Some "recv-signal:terminated"%string)
  /\ signalTask ([SignalRaised 1; SignalRaised 3] ++ CtxDone :: [SignalRaised SIGINT])
     = Exited None.
Proof.
  destruct (signalTask_blocks_until_signal_or_cancel
              [SignalRaised 1; SignalRaised 3] [CtxDone] eq_refl)
    as (Hb & _ & Hs & _).
  destruct (signalTask_blocks_until_signal_or_cancel
              [SignalRaised 1; SignalRaised 3] [SignalRaised SIGINT] eq_refl)
    as (_ & _ & _ & Hc).
  split; [exact Hb|]. split; [|exact Hc].
  exact (Hs SIGTERM (or_intror eq_refl)).
Defined.

(** ** The cleanup hooks of the listener tasks *)

Lemma count_app p tr1 tr2 :
  count p (tr1 ++ tr2) = (count p tr1 + count p tr2)%nat.
Proof. unfold count. by rewrite List.filter_app, length_app. Qed.

Lemma count_emit p e w :
  count p (trace (emit e w))
  = (count p (trace w) + if p e then 1 else 0)%nat.
Proof. simpl. rewrite count_app. unfold count. simpl. by destruct (p e). Qed.

(** C4: the HTTP hook calls [httpSrv.Shutdown], and the gRPC hook calls
    [grpcSrv.GracefulStop], exactly when the error it is given is nil;
    given a non-nil error the hook changes nothing. *)
Theorem listener_cleanup_only_after_clean_exit :
  forall (env : Env) (err : error) (w : World),
    (count is_http_shutdown (trace (httpSrvClean env err w))
     = S (count is_http_shutdown (trace w)) <-> err = None)
    /\ (count is_grpc_stop (trace (grpcSrvClean err w))
        = S (count is_grpc_stop (trace w)) <-> err = None)
    /\ (err <> None ->
        httpSrvClean env err w = w /\ grpcSrvClean err w = w).
Proof.
  intros env err w. destruct err as [msg|].
  - simpl. repeat split; try discriminate; try congruence; lia.
  - unfold httpSrvClean, grpcSrvClean. rewrite !count_emit. simpl.
    repeat split; try congruence; lia.
Qed.

(** C7, at the gRPC hook given a nil error: the only server-stopping call
    it makes is [GracefulStop], which carries no deadline, whereas the HTTP
    hook's [Shutdown] is given two seconds. *)
Theorem grpc_graceful_stop_has_no_deadline :
  forall env : Env,
    List.filter is_server_stop (trace (grpcSrvClean None initial))
    = [EGrpcGracefulStop]
    /\ deadline_of EGrpcGracefulStop = None
    /\ List.filter is_server_stop (trace (httpSrvClean env None initial))
       = [EHttpShutdown (2 * time_Second)]
    /\ deadline_of (EHttpShutdown (2 * time_Second)) = Some 2000000000.
Proof. intros env. repeat split. Qed.

(** ** The listener tasks *)

Lemma httpSrvTask_bind_failed env addr w lis msg :
  net_Listen env "tcp" addr = (lis, Some msg) ->
  httpSrvTask env addr w
  = (Panicked (PanicErr msg),
     emit (ENetListen "tcp" addr)
       (emit (ELog [LStr "NewSafeAsyncTask"; LStr "httpSrvTask";
                    LStr "httpSrvAddr"; LStr addr]) w)).
Proof.
  intros H. unfold httpSrvTask, Runtime.bind, act. simpl. rewrite H.
  reflexivity.
Qed.

Lemma grpcSrvTask_bind_failed env addr w lis msg :
  net_Listen env "tcp" addr = (lis, Some msg) ->
  grpcSrvTask env addr w
  = (Panicked (PanicErr msg),
     emit (ENetListen "tcp" addr)
       (emit (ELog [LStr "NewSafeAsyncTask"; LStr "grpcSrvTask";
                    LStr "grpcSrvAddr"; LStr addr]) w)).
Proof.
  intros H. unfold grpcSrvTask, Runtime.bind, act. simpl. rewrite H.
  reflexivity.
Qed.

(** Where the bind succeeds, a task returns what [Serve] returns. *)
Lemma httpSrvTask_bound env addr w l :
  net_Listen env "tcp" addr = (Some l, None) ->
  (httpSrvTask env addr w).1 = Returned (httpSrv_Serve env l).
Proof.
  intros H. unfold httpSrvTask, Runtime.bind, act. simpl. rewrite H.
  reflexivity.
Qed.

Lemma grpcSrvTask_bound env addr w l :
  net_Listen env "tcp" addr = (Some l, None) ->
  (grpcSrvTask env addr w).1 = Returned (grpcSrv_Serve env l).
Proof.
  intros H. unfold grpcSrvTask, Runtime.bind, act. simpl. rewrite H.
  reflexivity.
Qed.

(** C6 as stated fails: where [net.Listen] fails, the HTTP task and the
    gRPC task return no error at all. *)
Lemma bind_failure_is_not_returned :
  (net_Listen env_bind_fails "tcp" httpSrvAddr).2 <> None
  /\ (net_Listen env_bind_fails "tcp" grpcSrvAddr).2 <> None
  /\ ~ (exists err,
          (httpSrvTask env_bind_fails httpSrvAddr initial).1 = Returned err)
  /\ ~ (exists err,
          (grpcSrvTask env_bind_fails grpcSrvAddr initial).1 = Returned err).
Proof.
  repeat split; try discriminate.
  - intros [err H]. vm_compute in H. discriminate.
  - intros [err H]. vm_compute in H. discriminate.
Qed.

(** C6, amended: where [net.Listen] fails with an error, the HTTP task and
    the gRPC task panic with that error through [PanicIfErr], before any
    [Serve] call, and return nothing. *)
Theorem bind_failure_panics :
  forall (env : Env) (addr : string) (w : World) (lis : option Listener)
         (msg : string),
    net_Listen env "tcp" addr = (lis, Some msg) ->
    (httpSrvTask env addr w).1 = Panicked (PanicErr msg)
    /\ (grpcSrvTask env addr w).1 = Panicked (PanicErr msg)
    /\ count (fun e => match e with EHttpServe | EGrpcServe => true | _ => false end)
             (trace (httpSrvTask env addr w).2)
       = count (fun e => match e with EHttpServe | EGrpcServe => true | _ => false end)
               (trace w)
    /\ count (fun e => match e with EHttpServe | EGrpcServe => true | _ => false end)
             (trace (grpcSrvTask env addr w).2)
       = count (fun e => match e with EHttpServe | EGrpcServe => true | _ => false end)
               (trace w).
Proof.
  intros env addr w lis msg H.
  rewrite (httpSrvTask_bind_failed env addr w lis msg H).
  rewrite (grpcSrvTask_bind_failed env addr w lis msg H).
  cbn [fst snd]. rewrite !count_emit. simpl. repeat split; lia.
Qed.

Lemma bind_failure_panics_witness :
  (httpSrvTask env_bind_fails httpSrvAddr initial).1
  = Panicked (PanicErr "listen tcp: lookup 127.0.0.1111:8081")
  /\ (grpcSrvTask env_bind_fails httpSrvAddr initial).1
     = Panicked (PanicErr "listen tcp: lookup 127.0.0.1111:8081").
Proof.
  destruct (bind_failure_panics env_bind_fails httpSrvAddr initial None
              "listen tcp: lookup 127.0.0.1111:8081" eq_refl)
    as (Hh & Hg & _).
  split; [exact Hh | exact Hg].
Defined.

(** ** The registrations of [main] *)

Lemma main_setup_eq env port :
  main_setup env port
  = Some {| stopFn := stopAllTaskFunc;
            regs := [ {| reg_task := SignalTask; reg_clean := None |};
                      {| reg_task := ListenSignalTask; reg_clean := None |};
                      {| reg_task := HttpSrvTask httpSrvAddr;
                         reg_clean := Some (httpSrvClean env) |};
                      {| reg_task := GrpcSrvTask grpcSrvAddr;
                         reg_clean := Some grpcSrvClean |};
                      {| reg_task := SvcRegisterTask srvHost port;
                         reg_clean := Some svcRegisterClean |} ];
            started := false |}.
Proof. reflexivity. Qed.

(** C8: [main] registers its tasks in the dependency order signal
    listener, HTTP server, gRPC server, registry registration: a signal
    listener is registered first and the registry registration last,
    every signal listener comes before the HTTP server task, that one
    before the gRPC server task, and that one before the registry
    registration; [ak.Run()] is [main]'s last action, on exactly these
    registrations, so nothing is registered once Run has begun. *)
Theorem main_registration_order :
  forall (env : Env) (grpcPort : Z),
  exists ak,
    main_setup env grpcPort = Some ak
    /\ reg_task <$> regs ak
       = [SignalTask; ListenSignalTask; HttpSrvTask httpSrvAddr;
          GrpcSrvTask grpcSrvAddr; SvcRegisterTask srvHost grpcPort]
    /\ head (role <$> (reg_task <$> regs ak)) = Some SignalListener
    /\ last (role <$> (reg_task <$> regs ak)) = Some RegistryRegistration
    /\ precedes SignalListener HttpServer (role <$> (reg_task <$> regs ak))
    /\ precedes HttpServer GrpcServer (role <$> (reg_task <$> regs ak))
    /\ precedes GrpcServer RegistryRegistration
         (role <$> (reg_task <$> regs ak))
    /\ (forall sched w,
          main env grpcPort sched w
          = Run ak sched (emit (ELog [LStr "main"; LStr "started"]) w)).
Proof.
  intros env port. eexists. split; [apply main_setup_eq|].
  cbn [regs fmap list_fmap reg_task role].
  assert (Hord : forall a b,
             precedes a b
               [SignalListener; SignalListener; HttpServer; GrpcServer;
                RegistryRegistration]
             <-> forall i j,
                   [SignalListener; SignalListener; HttpServer; GrpcServer;
                    RegistryRegistration] !! i = Some a ->
                   [SignalListener; SignalListener; HttpServer; GrpcServer;
                    RegistryRegistration] !! j = Some b -> (i < j)%nat)
    by reflexivity.
  split; [reflexivity|]. split; [reflexivity|]. split; [reflexivity|].
  split; [|split; [|split]].
  - apply Hord. intros i j Hi Hj.
    destruct i as [|[|[|[|[|i]]]]]; try discriminate;
      destruct j as [|[|[|[|[|j]]]]]; try discriminate; lia.
  - apply Hord. intros i j Hi Hj.
    destruct i as [|[|[|[|[|i]]]]]; try discriminate;
      destruct j as [|[|[|[|[|j]]]]]; try discriminate; lia.
  - apply Hord. intros i j Hi Hj.
    destruct i as [|[|[|[|[|i]]]]]; try discriminate;
      destruct j as [|[|[|[|[|j]]]]]; try discriminate; lia.
  - intros sched w. unfold main. by rewrite main_setup_eq.
Qed.

(** ** The supervisor *)

Section SupervisorFacts.

Context {Task : Type}.
Implicit Types (ak : SafeAsyncTask Task) (rs : list (Registration Task))
  (xs : list (option error)) (errs : list error)
  (sched : list (nat * error)) (st : SupState) (w : World).

Lemma none_exited_insert xs k e :
  (k < length xs)%nat -> none_exited (<[k := Some e]> xs) = false.
Proof.
  revert k. induction xs as [|x xs IH]; intros k Hk; simpl in *; [lia|].
  destruct k as [|k]; simpl; [reflexivity|].
  rewrite IH by lia. by destruct x.
Qed.

Lemma none_exited_replicate n : none_exited (replicate n None) = true.
Proof. induction n; simpl; auto. Qed.

Lemma all_exited_fmap errs : all_exited (Some <$> errs) = true.
Proof. induction errs; simpl; auto. Qed.

(** Once some task has returned, further returns only fill in exit
    records. *)
Lemma drain_later stop sched st :
  none_exited (sup_exits st) = false ->
  NoDup sched.*1 ->
  (forall k, k ∈ sched.*1 -> sup_exits st !! k = Some None) ->
  exists xs,
    drain stop sched st
    = Some {| sup_world := sup_world st; sup_exits := xs;
              sup_stops := sup_stops st |}
    /\ length xs = length (sup_exits st)
    /\ (forall k e, (k, e) ∈ sched -> xs !! k = Some (Some e))
    /\ (forall k, k ∉ sched.*1 -> xs !! k = sup_exits st !! k).
Proof.
  revert st. induction sched as [|[k e] rest IH]; intros st Hne Hnd Hrun.
  - exists (sup_exits st). destruct st; simpl.
    repeat split; auto. intros k e Hin. by apply elem_of_nil in Hin.
  - rewrite fmap_cons in Hnd. apply NoDup_cons in Hnd as [Hk Hnd].
    pose proof (Hrun k ltac:(rewrite fmap_cons; left)) as Hlk.
    pose proof (lookup_lt_Some _ _ _ Hlk) as Hlt.
    cbn [drain task_returns]. rewrite Hlk, Hne.
    set (st' := {| sup_world := sup_world st;
                   sup_exits := <[k := Some e]> (sup_exits st);
                   sup_stops := sup_stops st |}).
    destruct (IH st') as (xs & Hd & Hlen & Hin & Hout).
    + simpl. by apply none_exited_insert.
    + exact Hnd.
    + intros k' Hk'. simpl.
      rewrite list_lookup_insert_ne by (intros ->; contradiction).
      apply Hrun. rewrite fmap_cons. by right.
    + exists xs. split; [exact Hd|]. simpl in Hlen.
      rewrite length_insert in Hlen. split; [exact Hlen|]. split.
      * intros k' e' Hel. apply elem_of_cons in Hel as [Heq|Hel].
        -- inversion Heq; subst. rewrite Hout by exact Hk. simpl.
           by apply list_lookup_insert_eq.
        -- by apply Hin.
      * intros k' Hk'. rewrite fmap_cons in Hk'.
        apply not_elem_of_cons in Hk' as [Hne' Hk'].
        rewrite Hout by exact Hk'. simpl.
        by rewrite list_lookup_insert_ne.
Qed.

(** The first return invokes the stop callback and cancels the context;
    the others are recorded. *)
Lemma drain_first stop k E rest n w :
  ((k, E) :: rest).*1 ≡ₚ seq 0 n ->
  exists errs,
    drain stop ((k, E) :: rest)
      {| sup_world := w; sup_exits := replicate n None; sup_stops := [] |}
    = Some {| sup_world := cancelCtx (stop E w);
              sup_exits := Some <$> errs;
              sup_stops := [E] |}
    /\ length errs = n
    /\ (forall i e, errs !! i = Some e <-> (i, e) ∈ (k, E) :: rest).
Proof.
  intros Hperm.
  assert (Hnd : NoDup ((k, E) :: rest).*1) by (rewrite Hperm; apply NoDup_seq).
  assert (Hdom : forall i, i ∈ ((k, E) :: rest).*1 <-> (i < n)%nat).
  { intros i. rewrite Hperm, elem_of_seq. lia. }
  rewrite fmap_cons in Hnd. apply NoDup_cons in Hnd as [Hk Hnd].
  assert (Hkn : (k < n)%nat) by (apply Hdom; rewrite fmap_cons; left).
  cbn [drain task_returns sup_exits sup_world sup_stops].
  rewrite lookup_replicate_2 by exact Hkn.
  rewrite none_exited_replicate. simpl app.
  set (st' := {| sup_world := cancelCtx (stop E w);
                 sup_exits := <[k := Some E]> (replicate n None);
                 sup_stops := [E] |}).
  destruct (drain_later stop rest st') as (xs & Hd & Hlen & Hin & Hout).
  { simpl. apply none_exited_insert. by rewrite length_replicate. }
  { exact Hnd. }
  { intros k' Hk'. simpl.
    rewrite list_lookup_insert_ne by (intros ->; contradiction).
    apply lookup_replicate_2. apply Hdom. rewrite fmap_cons. by right. }
  simpl in Hlen. rewrite length_insert, length_replicate in Hlen.
  assert (Hall : forall i e, (i, e) ∈ (k, E) :: rest -> xs !! i = Some (Some e)).
  { intros i e Hel. apply elem_of_cons in Hel as [Heq|Hel].
    - inversion Heq; subst. rewrite Hout by exact Hk. simpl.
      apply list_lookup_insert_eq. by rewrite length_replicate.
    - by apply Hin. }
  assert (Hsched : forall i, (i < n)%nat -> exists e, (i, e) ∈ (k, E) :: rest).
  { intros i Hi. apply Hdom in Hi.
    apply list_elem_of_fmap in Hi as ([i' e] & -> & Hel). by exists e. }
  exists ((fun x => default None x) <$> xs).
  assert (Hxs : Some <$> ((fun x => default None x) <$> xs) = xs).
  { apply list_eq. intros i. rewrite !list_lookup_fmap.
    destruct (decide (i < n)%nat) as [Hi|Hi].
    - destruct (Hsched i Hi) as [e He]. by rewrite (Hall i e He).
    - by rewrite lookup_ge_None_2 by lia. }
  rewrite Hxs. split; [exact Hd|]. split; [by rewrite length_fmap|].
  intros i e. rewrite list_lookup_fmap. split.
  - intros Hi. destruct (xs !! i) as [x|] eqn:Hx; [|discriminate].
    apply lookup_lt_Some in Hx as Hlt. rewrite Hlen in Hlt.
    destruct (Hsched i Hlt) as [e' He'].
    rewrite (Hall i e' He') in Hx. inversion Hx; subst x.
    simpl in Hi. inversion Hi; subst. exact He'.
  - intros Hel. by rewrite (Hall i e Hel).
Qed.

(** The same for a run in progress: some tasks have returned, the first
    of them task [k] with [E]. *)
Lemma drain_first_partial stop k E rest n w :
  NoDup ((k, E) :: rest).*1 ->
  (forall i, i ∈ ((k, E) :: rest).*1 -> (i < n)%nat) ->
  exists xs,
    drain stop ((k, E) :: rest)
      {| sup_world := w; sup_exits := replicate n None; sup_stops := [] |}
    = Some {| sup_world := cancelCtx (stop E w);
              sup_exits := xs;
              sup_stops := [E] |}.
Proof.
  intros Hnd Hdom.
  rewrite fmap_cons in Hnd. apply NoDup_cons in Hnd as [Hk Hnd].
  assert (Hkn : (k < n)%nat) by (apply Hdom; rewrite fmap_cons; left).
  cbn [drain task_returns sup_exits sup_world sup_stops].
  rewrite lookup_replicate_2 by exact Hkn.
  rewrite none_exited_replicate. simpl app.
  set (st' := {| sup_world := cancelCtx (stop E w);
                 sup_exits := <[k := Some E]> (replicate n None);
                 sup_stops := [E] |}).
  destruct (drain_later stop rest st') as (xs & Hd & _).
  { simpl. apply none_exited_insert. by rewrite length_replicate. }
  { exact Hnd. }
  { intros k' Hk'. simpl.
    rewrite list_lookup_insert_ne by (intros ->; contradiction).
    apply lookup_replicate_2. apply Hdom. rewrite fmap_cons. by right. }
  exists xs. exact Hd.
Qed.

End SupervisorFacts.

Section CleanupFacts.

Context {Task : Type}.
Implicit Types (ak : SafeAsyncTask Task) (rs : list (Registration Task))
  (errs : list error) (sched : list (nat * error)) (w : World).

(** The hooks that are due once every task has returned, in registration
    order, starting the index count at [start]. *)
Lemma due_in_order rs errs start :
  length errs = length rs ->
  let raw :=
    omap (fun '(i, (r, x)) =>
            match reg_clean r, x with
            | Some h, Some e => Some (i, h, e)
            | _, _ => None
            end)
         (zip (seq start (length rs)) (zip rs (Some <$> errs))) in
  ((fun '(i, _, e) => (i, e)) <$> raw).*1
  = omap (fun '(i, r) =>
            match reg_clean r with Some _ => Some i | None => None end)
         (zip (seq start (length rs)) rs)
  /\ (forall i h e, (i, h, e) ∈ raw ->
        exists j r, i = (start + j)%nat /\ rs !! j = Some r
                    /\ reg_clean r = Some h /\ errs !! j = Some e).
Proof.
  revert errs start. induction rs as [|r rs IH]; intros errs start Hlen.
  - simpl. split; [reflexivity|]. intros i h e Hin. by apply elem_of_nil in Hin.
  - destruct errs as [|e0 errs]; [discriminate|].
    simpl in Hlen. injection Hlen as Hlen.
    destruct (IH errs (S start) Hlen) as [IHa IHb].
    cbn [length seq zip zip_with fmap list_fmap omap list_omap].
    cbn zeta in IHa, IHb |- *.
    destruct (reg_clean r) as [h0|] eqn:Hr.
    + split.
      * cbn [fmap list_fmap fst]. f_equal. exact IHa.
      * intros i h e Hin. apply elem_of_cons in Hin as [Heq|Hin].
        -- inversion Heq; subst. exists 0%nat, r.
           repeat split; auto with lia.
        -- destruct (IHb i h e Hin) as (j & r' & -> & Hj & Hh & He).
           exists (S j), r'. repeat split; auto with lia.
    + split; [exact IHa|].
      intros i h e Hin.
      destruct (IHb i h e Hin) as (j & r' & -> & Hj & Hh & He).
      exists (S j), r'. repeat split; auto with lia.
Qed.

Lemma foldl_related {A B C} (f : A -> B -> A) (g : A -> C -> A)
    (p : B -> C) (l : list B) (a : A) :
  (forall x, x ∈ l -> forall a, f a x = g a (p x)) ->
  foldl f a l = foldl g a (p <$> l).
Proof.
  revert a. induction l as [|x l IH]; intros a H; [reflexivity|].
  simpl. rewrite (H x ltac:(left)). apply IH.
  intros y Hy. apply H. by right.
Qed.

(** What the hooks get and in which order, for exit records that are all
    filled in. *)
Lemma due_cleanups_spec rs errs :
  length errs = length rs ->
  let calls := (fun '(i, _, e) => (i, e)) <$> due_cleanups rs (Some <$> errs) in
  calls.*1 = reverse (hooked rs)
  /\ (forall i e, (i, e) ∈ calls -> errs !! i = Some e)
  /\ (forall w,
        run_cleanups (due_cleanups rs (Some <$> errs)) w
        = foldl (apply_hook rs) w calls).
Proof.
  intros Hlen calls. subst calls. unfold due_cleanups, hooked.
  destruct (due_in_order rs errs 0 Hlen) as [Ha Hb]. cbn zeta in Ha, Hb.
  set (raw := omap _ _) in *.
  split; [|split].
  - rewrite <- Ha. by rewrite !fmap_reverse.
  - intros i e Hin. apply list_elem_of_fmap in Hin as ([[i' h] e'] & Heq & Hin).
    inversion Heq; subst. rewrite elem_of_reverse in Hin.
    destruct (Hb i' h e' Hin) as (j & r & -> & _ & _ & He). exact He.
  - intros w. unfold run_cleanups. apply foldl_related.
    intros [[i h] e] Hin w'. rewrite elem_of_reverse in Hin.
    destruct (Hb i h e Hin) as (j & r & -> & Hj & Hh & He).
    unfold apply_hook. simpl. by rewrite Hj, Hh.
Qed.

(** Run returns once every task has, with one stop-callback invocation. *)
Lemma Run_returns ak k E rest w :
  ((k, E) :: rest).*1 ≡ₚ seq 0 (length (regs ak)) ->
  exists errs,
    length errs = length (regs ak)
    /\ (forall i e, errs !! i = Some e <-> (i, e) ∈ (k, E) :: rest)
    /\ Run ak ((k, E) :: rest) w
       = Some {| final := run_cleanups (due_cleanups (regs ak) (Some <$> errs))
                            (cancelCtx (stopFn ak E w));
                 stop_calls := [E];
                 clean_calls := (fun '(i, _, e) => (i, e))
                                <$> due_cleanups (regs ak) (Some <$> errs) |}.
Proof.
  intros Hperm.
  destruct (drain_first (stopFn ak) k E rest (length (regs ak)) w Hperm)
    as (errs & Hd & Hlen & Herrs).
  exists errs. split; [exact Hlen|]. split; [exact Herrs|].
  unfold Run. destruct (regs ak) as [|r rs] eqn:Hrs.
  - apply Permutation_length in Hperm. discriminate.
  - rewrite Hd. cbn [sup_exits sup_world sup_stops].
    by rewrite all_exited_fmap.
Qed.

End CleanupFacts.

Lemma stopAllTaskFunc_done E w : ctx_done (stopAllTaskFunc E w) = true.
Proof.
  unfold stopAllTaskFunc, cancelCtx.
  by destruct E; cbn [emit ctx_done]; destruct (ctx_done w) eqn:Hd.
Qed.

Lemma cancelCtx_when_done w : ctx_done w = true -> cancelCtx w = w.
Proof. intros H. unfold cancelCtx. by rewrite H. Qed.

(** C1: in every run [main] starts, at every moment after the first task
    has returned (whether or not the other tasks have returned yet), if
    task [k] was the first to return, with error [E], then
    [stopAllTaskFunc] has been invoked exactly once, with [E]: the world is
    the one that single call leaves, in which [shareCtx] is done, its Done
    channel was closed exactly once, and [E] was logged if it is not nil.
    The same holds when Run has returned.  Cancelling again, as the
    supervisor does after the callback, changes nothing. *)
Theorem first_return_stops_and_cancels_once :
  forall (env : Env) (grpcPort : Z) (k : nat) (E : error)
         (rest : list (nat * error)),
    NoDup ((k, E) :: rest).*1 ->
    (forall i, i ∈ ((k, E) :: rest).*1 -> (i < 5)%nat) ->
    let w0 := emit (ELog [LStr "main"; LStr "started"]) initial in
    let logged := match E with Some _ => [E] | None => [] end in
    (exists st,
        main_state env grpcPort ((k, E) :: rest) initial = Some st
        /\ sup_stops st = [E]
        /\ sup_world st = stopAllTaskFunc E w0
        /\ ctx_done (sup_world st) = true
        /\ count is_ctx_done (trace (sup_world st)) = 1%nat
        /\ omap logs_stop (trace (sup_world st)) = logged)
    /\ (((k, E) :: rest).*1 ≡ₚ seq 0 5 ->
        exists r,
          main env grpcPort ((k, E) :: rest) initial = Some r
          /\ stop_calls r = [E]
          /\ ctx_done (final r) = true
          /\ count is_ctx_done (trace (final r)) = 1%nat
          /\ omap logs_stop (trace (final r)) = logged)
    /\ (forall w, cancelCtx (stopAllTaskFunc E w) = stopAllTaskFunc E w)
    /\ (forall w, cancelCtx (cancelCtx w) = cancelCtx w)
    /\ (forall w, ctx_done w = true -> cancelCtx w = w).
Proof.
  intros env port k E rest Hnd Hdom w0 logged.
  assert (Hstop : forall w, cancelCtx (stopAllTaskFunc E w) = stopAllTaskFunc E w).
  { intros w. apply cancelCtx_when_done, stopAllTaskFunc_done. }
  split; [|split; [|split; [exact Hstop|split; [|apply cancelCtx_when_done]]]].
  - unfold main_state. rewrite main_setup_eq. cbn [mbind option_bind].
    unfold run_state. cbn [regs stopFn length]. fold w0.
    destruct (drain_first_partial stopAllTaskFunc k E rest 5 w0 Hnd Hdom)
      as (xs & Hd).
    rewrite Hd, Hstop. eexists. split; [reflexivity|].
    cbn [sup_stops sup_world]. split; [reflexivity|]. split; [reflexivity|].
    split; [apply stopAllTaskFunc_done|].
    subst logged. by destruct E.
  - intros Hperm. unfold main. rewrite main_setup_eq. cbn [mbind option_bind].
    fold w0.
    match goal with |- context [Run ?a _ _] => set (ak := a) end.
    destruct (Run_returns ak k E rest w0 Hperm) as (errs & Hlen & _ & HR).
    rewrite HR. eexists. split; [reflexivity|]. cbn [stop_calls final].
    split; [reflexivity|].
    destruct errs as [|e0 [|e1 [|e2 [|e3 [|e4 [|]]]]]]; try discriminate.
    subst logged. destruct E, e2, e3, e4; repeat split.
  - intros w. apply cancelCtx_when_done. unfold cancelCtx.
    by destruct (ctx_done w) eqn:Hdone.
Qed.

Lemma first_return_stops_and_cancels_once_witness :
  exists st,
    main_state env_ok 8080 Scenario.sigint_only_sched initial = Some st
    /\ sup_stops st = [Some "recv-signal:interrupt"%string]
    /\ ctx_done (sup_world st) = true
    /\ count is_ctx_done (trace (sup_world st)) = 1%nat
    /\ omap logs_stop (trace (sup_world st))
       = [Some "recv-signal:interrupt"%string].
Proof.
  assert (Hnd : NoDup Scenario.sigint_only_sched.*1).
  { apply NoDup_singleton. }
  assert (Hdom : forall i, i ∈ Scenario.sigint_only_sched.*1 -> (i < 5)%nat).
  { intros i Hi. apply list_elem_of_singleton in Hi. subst i.
    cbn. unfold ix_signal. lia. }
  destruct (first_return_stops_and_cancels_once env_ok 8080 ix_signal
              (Some "recv-signal:interrupt"%string) [] Hnd Hdom)
    as ((st & Hst & Hs & _ & Hd & Hc & Hl) & _).
  exists st. repeat split; assumption.
Defined.

(** C2: in every supervisor run in which all tasks return, the hooks are
    invoked one after the other in reverse registration order, and the
    error each hook receives is the one its own task returned. *)
Theorem cleanup_hooks_run_in_reverse_order :
  forall (Task : Type) (ak : SafeAsyncTask Task) (k : nat) (E : error)
         (rest : list (nat * error)) (w : World),
    ((k, E) :: rest).*1 ≡ₚ seq 0 (length (regs ak)) ->
    exists r,
      Run ak ((k, E) :: rest) w = Some r
      /\ (clean_calls r).*1 = reverse (hooked (regs ak))
      /\ (forall i e, (i, e) ∈ clean_calls r -> (i, e) ∈ (k, E) :: rest)
      /\ final r
         = foldl (apply_hook (regs ak)) (cancelCtx (stopFn ak E w))
                 (clean_calls r).
Proof.
  intros Task ak k E rest w Hperm.
  destruct (Run_returns ak k E rest w Hperm) as (errs & Hlen & Herrs & HR).
  destruct (due_cleanups_spec (regs ak) errs Hlen) as (Hord & Hown & Hrun).
  cbn zeta in Hord, Hown.
  eexists. split; [exact HR|]. cbn [clean_calls final].
  split; [exact Hord|]. split; [|apply Hrun].
  intros i e Hin. apply Herrs. by apply Hown.
Qed.

Lemma cleanup_hooks_run_in_reverse_order_witness :
  exists r,
    Run Scenario.abc Scenario.abc_sched initial = Some r
    /\ (clean_calls r).*1 = [2; 1; 0]%nat
    /\ (forall i e, (i, e) ∈ clean_calls r -> (i, e) ∈ Scenario.abc_sched).
Proof.
  assert (Hperm : Scenario.abc_sched.*1 ≡ₚ seq 0 (length (regs Scenario.abc))).
  { by vm_compute; solve_Permutation. }
  destruct (cleanup_hooks_run_in_reverse_order string Scenario.abc 1%nat
              (Some "boom"%string)
              [(2%nat, None); (0%nat, Some "context canceled"%string)]
              initial Hperm)
    as (r & Hr & Hord & Hown & _).
  exists r. split; [exact Hr|]. split; [exact Hord | exact Hown].
Defined.

(** C5 as stated fails: in a run of [main] in which the registration task
    itself returns an error, its hook does not deregister. *)
Lemma failed_registration_is_not_deregistered :
  Scenario.register_fails_sched.*1 ≡ₚ seq 0 5
  /\ exists r,
       main env_ok 8080 Scenario.register_fails_sched initial = Some r
       /\ count is_deregister (trace (final r)) = 0%nat.
Proof.
  split; [by vm_compute; solve_Permutation|].
  eexists. split; [vm_compute; reflexivity | reflexivity].
Qed.

(** C5, amended: in every run of [main] in which all tasks return, the
    hook of the registry-registration task is the first hook invoked,
    before the gRPC and HTTP hooks; it calls [ConsulDeregister] exactly
    when the registration task's own exit error is nil, and then that call
    precedes every call that stops a transport server. *)
Theorem deregistration_precedes_transport_teardown :
  forall (env : Env) (grpcPort : Z) (k : nat) (E : error)
         (rest : list (nat * error)),
    ((k, E) :: rest).*1 ≡ₚ seq 0 5 ->
    exists r,
      main env grpcPort ((k, E) :: rest) initial = Some r
      /\ (clean_calls r).*1 = [ix_register; ix_grpc; ix_http]
      /\ ((ix_register, None) ∈ (k, E) :: rest ->
            count is_deregister (trace (final r)) = 1%nat
            /\ count is_server_stop
                 (before_first is_deregister (trace (final r))) = 0%nat)
      /\ ((ix_register, None) ∉ (k, E) :: rest ->
            count is_deregister (trace (final r)) = 0%nat).
Proof.
  intros env port k E rest Hperm.
  unfold main. rewrite main_setup_eq. cbn [mbind option_bind].
  match goal with |- context [Run ?a _ ?w0] => set (ak := a); set (w := w0) end.
  destruct (Run_returns ak k E rest w Hperm) as (errs & Hlen & Herrs & HR).
  rewrite HR. eexists. split; [reflexivity|]. cbn [clean_calls final].
  destruct errs as [|e0 [|e1 [|e2 [|e3 [|e4 [|]]]]]]; try discriminate.
  pose proof (Herrs ix_register e4) as H4. simpl in H4.
  split; [|split].
  - destruct e2, e3, e4; reflexivity.
  - intros Hin. apply Herrs in Hin. simpl in Hin. inversion Hin; subst e4.
    destruct E, e2, e3; split; reflexivity.
  - intros Hnot. destruct e4 as [msg|].
    + destruct E, e2, e3; reflexivity.
    + exfalso. apply Hnot, Herrs. reflexivity.
Qed.

Lemma deregistration_precedes_transport_teardown_witness :
  exists r,
    main env_ok 8080 Scenario.sigint_sched initial = Some r
    /\ (clean_calls r).*1 = [ix_register; ix_grpc; ix_http]
    /\ count is_deregister (trace (final r)) = 1%nat
    /\ count is_server_stop
         (before_first is_deregister (trace (final r))) = 0%nat.
Proof.
  assert (Hperm : Scenario.sigint_sched.*1 ≡ₚ seq 0 5).
  { by vm_compute; solve_Permutation. }
  destruct (deregistration_precedes_transport_teardown env_ok 8080 ix_signal
              (Some "recv-signal:interrupt"%string)
              [(ix_register, None); (ix_listen_signal, None);
               (ix_grpc, None); (ix_http, None)] Hperm)
    as (r & Hr & Hord & Hyes & _).
  destruct Hyes as [Hone Hbefore].
  { apply list_elem_of_In. simpl. tauto. }
  exists r. repeat split; assumption.
Defined.

(** * Further properties of the code *)

(** ** pkg/service: [New] *)

Section ServiceFacts.

Context {Ctx : Type}.
Implicit Types (m : Service.Middleware Ctx) (ms : list (Service.Middleware Ctx)).

(** [New] wraps the basic service in the middlewares in list order: the one
    listed last is the outermost. *)
Theorem New_applies_middleware_in_order :
  forall ms m,
    Service.New Ctx [] = Service.NewBasicHelloService Ctx
    /\ Service.New Ctx (ms ++ [m]) = m (Service.New Ctx ms)
    /\ Service.New Ctx ms
       = foldr (fun m svc => m svc) (Service.NewBasicHelloService Ctx)
               (reverse ms).
Proof.
  intros ms m. unfold Service.New. split; [reflexivity|]. split.
  - by rewrite foldl_app.
  - induction ms as [|m' ms IH] using rev_ind; [reflexivity|].
    rewrite foldl_app, reverse_app. simpl. by rewrite IH.
Qed.

(** Under middlewares that leave [SayHi]'s result alone, the service [New]
    returns still answers every call with the empty reply and nil. *)
Theorem New_transparent_middleware_keeps_reply :
  forall ms ctx name say,
    Forall (Service.transparent Ctx) ms ->
    Service.hs_SayHi Ctx (Service.New Ctx ms) ctx name say = (""%string, None).
Proof.
  intros ms ctx name say Hms. unfold Service.New.
  induction ms as [|m ms IH] using rev_ind; [reflexivity|].
  apply Forall_app in Hms as [Hms Hm]. rewrite Forall_singleton in Hm.
  rewrite foldl_app. simpl. unfold Service.transparent in Hm.
  rewrite Hm. by apply IH.
Qed.

End ServiceFacts.

Lemma New_transparent_middleware_keeps_reply_witness :
  Service.hs_SayHi unit
    (Service.New unit [Scenario.passing unit; Scenario.passing unit])
    tt "bob" "hi" = (""%string, None).
Proof.
  apply (New_transparent_middleware_keeps_reply
           [Scenario.passing unit; Scenario.passing unit] tt "bob"%string
           "hi"%string).
  repeat constructor.
Defined.

(** ** stringsvc: [loggingMiddleware] *)

Lemma iter_emit_shift e n w :
  Nat.iter n (emit e) (emit e w) = emit e (Nat.iter n (emit e) w).
Proof. induction n as [|n IH]; [reflexivity|]. simpl. by rewrite IH. Qed.

(** [n] logging layers around an endpoint log "calling endpoint" [n] times,
    then run the endpoint, then log "called endpoint" [n] times, and give
    the endpoint's own outcome, a panic included. *)
Theorem logging_layers_bracket_the_call :
  forall (Ctx Req Resp : Type) (n : nat)
         (next : Stringsvc.Endpoint Ctx Req Resp) (ctx : Ctx) (req : Req)
         (w : World),
    Nat.iter n Stringsvc.loggingMiddleware next ctx req w
    = ((next ctx req (Nat.iter n (emit Stringsvc.calling_endpoint) w)).1,
       Nat.iter n (emit Stringsvc.called_endpoint)
         (next ctx req (Nat.iter n (emit Stringsvc.calling_endpoint) w)).2).
Proof.
  intros Ctx Req Resp n next ctx req.
  induction n as [|n IH]; intros w.
  - simpl. by destruct (next ctx req w).
  - cbn [Nat.iter nat_rect]. unfold Stringsvc.loggingMiddleware at 1.
    fold (Nat.iter n (@Stringsvc.loggingMiddleware Ctx Req Resp) next).
    rewrite IH. rewrite iter_emit_shift. reflexivity.
Qed.

(** The deferred log line is written even when the wrapped endpoint
    panics, and the panic passes through unchanged. *)
Theorem logging_survives_panic :
  forall (Ctx Req Resp : Type) (next : Stringsvc.Endpoint Ctx Req Resp)
         (ctx : Ctx) (req : Req) (w : World) (p : PanicValue),
    (next ctx req (emit Stringsvc.calling_endpoint w)).1 = Panicked p ->
    (Stringsvc.loggingMiddleware next ctx req w).1 = Panicked p
    /\ last (trace (Stringsvc.loggingMiddleware next ctx req w).2)
       = Some Stringsvc.called_endpoint.
Proof.
  intros Ctx Req Resp next ctx req w p H.
  unfold Stringsvc.loggingMiddleware.
  destruct (next ctx req (emit Stringsvc.calling_endpoint w)) as [o w'].
  simpl in *. split; [exact H|]. by rewrite last_snoc.
Qed.

Lemma logging_survives_panic_witness :
  (Stringsvc.loggingMiddleware Scenario.failing_endpoint tt tt initial).1
  = Panicked (PanicErr "boom")
  /\ last (trace (Stringsvc.loggingMiddleware Scenario.failing_endpoint
                    tt tt initial).2)
     = Some Stringsvc.called_endpoint.
Proof.
  exact (logging_survives_panic unit unit unit Scenario.failing_endpoint
           tt tt initial (PanicErr "boom") eq_refl).
Defined.

(** ** new_addsvc: [stopAllTaskFunc] *)

Lemma cancelCtx_effects (p : Effect -> bool) w :
  ctx_done (cancelCtx w) = true
  /\ count p (trace (cancelCtx w))
     = (count p (trace w)
        + if ctx_done w then 0 else if p ECtxDone then 1 else 0)%nat.
Proof.
  unfold cancelCtx. destruct (ctx_done w) eqn:Hd.
  - split; [exact Hd | lia].
  - cbn [ctx_done trace]. split; [reflexivity|].
    rewrite count_app. unfold count at 2. simpl. by destruct (p ECtxDone).
Qed.

(** One call of [stopAllTaskFunc] leaves the shared context done, closes
    its Done channel only if it was still open, and writes a log line
    exactly when the error is not nil. *)
Theorem stopAllTaskFunc_effects :
  forall (err : error) (w : World),
    ctx_done (stopAllTaskFunc err w) = true
    /\ count is_ctx_done (trace (stopAllTaskFunc err w))
       = (count is_ctx_done (trace w) + if ctx_done w then 0 else 1)%nat
    /\ count is_log (trace (stopAllTaskFunc err w))
       = (count is_log (trace w)
          + match err with Some _ => 1 | None => 0 end)%nat.
Proof.
  intros err w. unfold stopAllTaskFunc.
  set (w1 := match err with Some _ => emit _ w | None => w end).
  destruct (cancelCtx_effects is_ctx_done w1) as [Hd Hc].
  destruct (cancelCtx_effects is_log w1) as [_ Hl].
  rewrite Hd, Hc, Hl. subst w1.
  destruct err as [msg|]; rewrite ?count_emit; cbn [emit ctx_done];
    destruct (ctx_done w); simpl; repeat split; lia.
Qed.

(** A later call of [stopAllTaskFunc] never closes the Done channel again,
    and with a nil error it changes nothing at all. *)
Theorem stopAllTaskFunc_again :
  forall (e1 e2 : error) (w : World),
    count is_ctx_done (trace (stopAllTaskFunc e2 (stopAllTaskFunc e1 w)))
    = count is_ctx_done (trace (stopAllTaskFunc e1 w))
    /\ stopAllTaskFunc None (stopAllTaskFunc e1 w) = stopAllTaskFunc e1 w.
Proof.
  intros e1 e2 w.
  destruct (stopAllTaskFunc_effects e1 w) as (Hd & _ & _).
  destruct (stopAllTaskFunc_effects e2 (stopAllTaskFunc e1 w)) as (_ & Hc & _).
  rewrite Hd in Hc. split; [lia|].
  unfold stopAllTaskFunc at 1. unfold cancelCtx. by rewrite Hd.
Qed.

(** ** new_addsvc: the cleanup hooks *)

(** The registry hook calls [ConsulDeregister] exactly when the error it is
    given is nil; given a non-nil error it changes nothing. *)
Theorem svcRegisterClean_only_after_clean_exit :
  forall (err : error) (w : World),
    (count is_deregister (trace (svcRegisterClean err w))
     = S (count is_deregister (trace w)) <-> err = None)
    /\ (err <> None -> svcRegisterClean err w = w).
Proof.
  intros err w. destruct err as [msg|].
  - simpl. repeat split; try discriminate; try congruence; lia.
  - unfold svcRegisterClean. rewrite !count_emit. simpl.
    repeat split; try congruence; lia.
Qed.

(** No cleanup hook touches the shared context, and each keeps to its own
    resource: the registry hook stops no server, the two server hooks do
    not deregister, and neither server hook stops the other's server. *)
Theorem cleanup_hooks_keep_to_their_resource :
  forall (env : Env) (err : error) (w : World),
    (ctx_done (httpSrvClean env err w) = ctx_done w
     /\ ctx_done (grpcSrvClean err w) = ctx_done w
     /\ ctx_done (svcRegisterClean err w) = ctx_done w)
    /\ (count is_ctx_done (trace (httpSrvClean env err w))
        = count is_ctx_done (trace w)
        /\ count is_ctx_done (trace (grpcSrvClean err w))
           = count is_ctx_done (trace w)
        /\ count is_ctx_done (trace (svcRegisterClean err w))
           = count is_ctx_done (trace w))
    /\ count is_server_stop (trace (svcRegisterClean err w))
       = count is_server_stop (trace w)
    /\ count is_deregister (trace (httpSrvClean env err w))
       = count is_deregister (trace w)
    /\ count is_deregister (trace (grpcSrvClean err w))
       = count is_deregister (trace w)
    /\ count is_grpc_stop (trace (httpSrvClean env err w))
       = count is_grpc_stop (trace w)
    /\ count is_http_shutdown (trace (grpcSrvClean err w))
       = count is_http_shutdown (trace w).
Proof.
  intros env err w. unfold httpSrvClean, grpcSrvClean, svcRegisterClean.
  destruct err as [msg|]; rewrite ?count_emit; cbn; repeat split; lia.
Qed.

(** ** new_addsvc: the listener tasks *)

Lemma httpSrvTask_run env addr w :
  httpSrvTask env addr w
  = let w2 := emit (ENetListen "tcp" addr)
                (emit (ELog [LStr "NewSafeAsyncTask"; LStr "httpSrvTask";
                             LStr "httpSrvAddr"; LStr addr]) w) in
    match net_Listen env "tcp" addr with
    | (_, Some msg) => (Panicked (PanicErr msg), w2)
    | (Some l, None) => (Returned (httpSrv_Serve env l), emit EHttpServe w2)
    | (None, None) =>
        (Panicked (PanicErr "invalid memory address or nil pointer dereference"),
         w2)
    end.
Proof.
  unfold httpSrvTask, Runtime.bind, act. simpl.
  by destruct (net_Listen env "tcp" addr) as [[l|] [msg|]].
Qed.

Lemma grpcSrvTask_run env addr w :
  grpcSrvTask env addr w
  = let w2 := emit (ENetListen "tcp" addr)
                (emit (ELog [LStr "NewSafeAsyncTask"; LStr "grpcSrvTask";
                             LStr "grpcSrvAddr"; LStr addr]) w) in
    match net_Listen env "tcp" addr with
    | (_, Some msg) => (Panicked (PanicErr msg), w2)
    | (Some l, None) =>
        (Returned (grpcSrv_Serve env l),
         emit EGrpcServe (emit ERegisterHealthServer (emit ERegisterAddServer w2)))
    | (None, None) =>
        (Panicked (PanicErr "invalid memory address or nil pointer dereference"),
         emit ERegisterHealthServer (emit ERegisterAddServer w2))
    end.
Proof.
  unfold grpcSrvTask, Runtime.bind, act. simpl.
  by destruct (net_Listen env "tcp" addr) as [[l|] [msg|]].
Qed.

(** The HTTP task returns exactly when [net.Listen] gave a listener and no
    error, and then it returns what [httpSrv.Serve] returned; it calls
    [net.Listen] once and leaves the shared context alone. *)
Theorem httpSrvTask_returns_serve_error :
  forall (env : Env) (addr : string) (w : World) (e : error),
    ((httpSrvTask env addr w).1 = Returned e <->
     exists l, net_Listen env "tcp" addr = (Some l, None)
               /\ e = httpSrv_Serve env l)
    /\ count is_net_listen (trace (httpSrvTask env addr w).2)
       = S (count is_net_listen (trace w))
    /\ ctx_done (httpSrvTask env addr w).2 = ctx_done w.
Proof.
  intros env addr w e. rewrite httpSrvTask_run. cbn zeta.
  destruct (net_Listen env "tcp" addr) as [[l|] [msg|]] eqn:HL;
    cbn [fst snd]; rewrite ?count_emit; cbn [emit ctx_done is_net_listen];
    (split; [|split; [lia|reflexivity]]).
  - split; [discriminate|]. intros (l' & Heq & _). discriminate.
  - split.
    + intros H. inversion H. by exists l.
    + intros (l' & Heq & ->). by inversion Heq.
  - split; [discriminate|]. intros (l' & Heq & _). discriminate.
  - split; [discriminate|]. intros (l' & Heq & _). discriminate.
Qed.

(** The gRPC task returns exactly when [net.Listen] gave a listener and no
    error, and then it returns what [grpcSrv.Serve] returned, having
    registered the add service and the health service, in this order,
    before it served. *)
Theorem grpcSrvTask_registers_then_serves :
  forall (env : Env) (addr : string) (w : World) (e : error),
    ((grpcSrvTask env addr w).1 = Returned e <->
     exists l, net_Listen env "tcp" addr = (Some l, None)
               /\ e = grpcSrv_Serve env l)
    /\ ((grpcSrvTask env addr w).1 = Returned e ->
        trace (grpcSrvTask env addr w).2
        = trace w
          ++ [ELog [LStr "NewSafeAsyncTask"; LStr "grpcSrvTask";
                    LStr "grpcSrvAddr"; LStr addr];
              ENetListen "tcp" addr;
              ERegisterAddServer; ERegisterHealthServer; EGrpcServe])
    /\ ctx_done (grpcSrvTask env addr w).2 = ctx_done w.
Proof.
  intros env addr w e. rewrite grpcSrvTask_run. cbn zeta.
  destruct (net_Listen env "tcp" addr) as [[l|] [msg|]] eqn:HL;
    cbn [fst snd emit ctx_done trace];
    (split; [|split; [|reflexivity]]); try discriminate.
  - split; [discriminate|]. intros (l' & Heq & _). discriminate.
  - split.
    + intros H. inversion H. by exists l.
    + intros (l' & Heq & ->). by inversion Heq.
  - intros _. by rewrite <- !app_assoc.
  - split; [discriminate|]. intros (l' & Heq & _). discriminate.
  - split; [discriminate|]. intros (l' & Heq & _). discriminate.
Qed.

(** ** new_addsvc: [main]'s addresses *)

Lemma host_port_inj host p q : host_port host p = host_port host q -> p = q.
Proof.
  unfold host_port. intros H.
  apply (inj (String.app host)) in H.
  apply (inj (String.app ":")) in H.
  by apply (inj pretty) in H.
Qed.

(** The gRPC server listens on the address built from the flag's default
    port, while the registry task is given the parsed flag: the address
    advertised to the registry is the one listened on only if the port
    flag is left at 8080. *)
Theorem advertised_address_ignores_listen_address :
  forall (env : Env) (grpcPort : Z),
  exists ak,
    main_setup env grpcPort = Some ak
    /\ forall addr host port,
         GrpcSrvTask addr ∈ reg_task <$> regs ak ->
         SvcRegisterTask host port ∈ reg_task <$> regs ak ->
         addr = "127.0.0.1111:8080"%string
         /\ port = grpcPort
         /\ (host_port host port = addr <-> grpcPort = 8080).
Proof.
  intros env grpcPort. eexists. split; [apply main_setup_eq|].
  cbn [regs fmap list_fmap reg_task]. intros addr host port Hg Hr.
  rewrite !elem_of_cons, elem_of_nil in Hg, Hr.
  destruct Hg as [Hg|[Hg|[Hg|[Hg|[Hg|[]]]]]]; try discriminate.
  destruct Hr as [Hr|[Hr|[Hr|[Hr|[Hr|[]]]]]]; try discriminate.
  inversion Hg; inversion Hr; subst.
  split; [reflexivity|]. split; [reflexivity|]. split.
  - intros H. by apply (host_port_inj srvHost).
  - by intros ->.
Qed.

(** ** new_addsvc: the inline signal task *)

(** Once the signal task has returned, nothing that happens later changes
    what it returned. *)
Theorem signalTask_exit_is_final :
  forall (evs more : list Event) (err : error),
    signalTask evs = Exited err ->
    signalTask (evs ++ more) = Exited err.
Proof.
  unfold signalTask. intros evs more err.
  induction evs as [|ev evs IH]; [discriminate|].
  destruct ev as [s|]; cbn [app select_signal_or_done].
  - destruct (existsb (Z.eqb s) [SIGINT; SIGTERM]); [done | exact IH].
  - done.
Qed.

Lemma signalTask_exit_is_final_witness :
  signalTask ([SignalRaised 1; CtxDone] ++ [SignalRaised SIGINT]) = Exited None.
Proof.
  exact (signalTask_exit_is_final [SignalRaised 1; CtxDone]
           [SignalRaised SIGINT] None eq_refl).
Defined.

(** What the signal task returns tells what ended its wait: nil only if
    its context was done, and otherwise one of two errors, naming SIGINT
    or SIGTERM, only if that signal was raised. *)
Theorem signalTask_error_names_the_signal :
  forall (evs : list Event) (err : error),
    signalTask evs = Exited err ->
    match err with
    | None => CtxDone ∈ evs
    | Some msg =>
        (msg = "recv-signal:interrupt"%string /\ SignalRaised SIGINT ∈ evs)
        \/ (msg = "recv-signal:terminated"%string
            /\ SignalRaised SIGTERM ∈ evs)
    end.
Proof.
  unfold signalTask. intros evs err.
  induction evs as [|ev evs IH]; [discriminate|].
  destruct ev as [s|]; cbn [select_signal_or_done].
  - rewrite notified_by_main.
    destruct (wakes (SignalRaised s)) eqn:Hw.
    + intros H. inversion H; subst err. simpl in Hw.
      apply orb_true_iff in Hw as [Hs|Hs]; apply Z.eqb_eq in Hs; subst s.
      * left. split; [reflexivity | left].
      * right. split; [reflexivity | left].
    + intros H. specialize (IH H). destruct err as [msg|].
      * destruct IH as [[-> Hin]|[-> Hin]]; [left|right];
          (split; [reflexivity | by right]).
      * by right.
  - intros H. inversion H; subst err. left.
Qed.

Lemma signalTask_error_names_the_signal_witness :
  SignalRaised SIGTERM ∈ [SignalRaised 1; SignalRaised SIGTERM; CtxDone].
Proof.
  destruct (signalTask_error_names_the_signal
              [SignalRaised 1; SignalRaised SIGTERM; CtxDone]
              (Some "recv-signal:terminated"%string) eq_refl)
    as [[Hm _]|[_ Hin]]; [discriminate | exact Hin].
Defined.
